(** * FPS Survival API: a shallow embedding of the in-memory game server

    Source: the Express server of the repository (players, weapons,
    enemies and inventory held in four [Map]s, ten request handlers).
    Each handler is a function from the store (the four maps) and the
    request data to the new store and the response.  The values the
    handlers draw from the host ([uuidv4()], [Math.random()],
    [new Date().toISOString()]) are explicit arguments. *)

From Stdlib Require Import ZArith Lia String List.
From stdpp Require Import base gmap strings list pretty.
Import ListNotations.
Open Scope Z_scope.

(* ------------------------------------------------------------------ *)
(** ** JSON values of request bodies and JavaScript truthiness *)

(** A value decoded by [express.json()]; JSON has no NaN, so the only
    falsy number is zero.  Arrays and objects are [JOther]. *)
Inductive jsval :=
| JNull
| JBool (b : bool)
| JNum (n : Z)
| JStr (s : string)
| JOther.

(** A body field: [None] is [undefined] (the field is absent). *)
Definition field := option jsval.

(** [ToBoolean] of an optional body field. *)
Definition truthy (v : field) : bool :=
  match v with
  | None => false
  | Some JNull => false
  | Some (JBool b) => b
  | Some (JNum n) => negb (n =? 0)
  | Some (JStr s) => negb (String.eqb s "")
  | Some JOther => true
  end.

(** [v || dflt] with a string default. *)
Definition js_or (v : field) (dflt : string) : jsval :=
  match v with
  | Some x => if truthy v then x else JStr dflt
  | None => JStr dflt
  end.

(** [v === lit] for a string literal [lit]. *)
Definition js_str_eq (v : field) (lit : string) : bool :=
  match v with
  | Some (JStr s) => String.eqb s lit
  | _ => false
  end.

(* ------------------------------------------------------------------ *)
(** ** IEEE binary64 values produced by [Math.random] and their products *)

(** A non-negative finite double [mant * 2 ^ dexp]. *)
Record dbl := mkDbl { mant : Z; dexp : Z }.

(** [Math.random()] returns a double in [[+0, 1)]: a mantissa below
    [2^53] and an exponent no smaller than the subnormal one. *)
Definition dlt_int (d : dbl) (n : Z) : bool :=
  if 0 <=? dexp d then mant d * 2 ^ dexp d <? n
  else mant d <? n * 2 ^ (- dexp d).

Definition dgt_int (d : dbl) (n : Z) : bool :=
  if 0 <=? dexp d then n <? mant d * 2 ^ dexp d
  else n * 2 ^ (- dexp d) <? mant d.

Definition math_random_ok (r : dbl) : Prop :=
  0 <= mant r < 2 ^ 53 /\ -1074 <= dexp r /\ dlt_int r 1 = true.

(** Round-to-nearest-even of the exact value [M * 2^e] ([M >= 0]) to a
    53-bit mantissa.  No overflow occurs for the magnitudes used here, and
    the exponent only grows, so no underflow either. *)
Definition round_prod (M e : Z) : dbl :=
  let k := Z.log2 M in
  if k <=? 52 then mkDbl M e
  else
    let sh := k - 52 in
    let q := Z.shiftr M sh in
    let rem := M - Z.shiftl q sh in
    let half := Z.shiftl 1 (sh - 1) in
    let q' := if (half <? rem) || ((rem =? half) && Z.odd q) then q + 1 else q in
    mkDbl q' (e + sh).

(** [r * n] for a small positive integer [n] (itself an exact double). *)
Definition mul_int (r : dbl) (n : Z) : dbl := round_prod (mant r * n) (dexp r).

(** [Math.floor] of a non-negative double. *)
Definition dfloor (d : dbl) : Z :=
  if 0 <=? dexp d then Z.shiftl (mant d) (dexp d)
  else Z.shiftr (mant d) (- dexp d).

(* ------------------------------------------------------------------ *)
(** ** Records of the four maps *)

Record player := mkPlayer {
  p_id : string;
  p_name : jsval;
  p_level : Z;
  p_experience : Z;
  p_health : Z;
  p_armor : Z;
  p_position : Z * Z * Z;
  p_weapons : list string;
  p_createdAt : string
}.

Record weapon := mkWeapon {
  w_id : string;
  w_name : string;
  w_damage : Z;
  w_ammo : Z
}.

Record enemy := mkEnemy {
  e_id : string;
  e_type : option string;          (* [undefined] if the index is out of range *)
  e_health : Z;
  e_position : dbl * dbl * dbl;
  e_spawnedAt : string
}.

Record inv := mkInv {
  i_playerId : string;
  medical_kits : Z;
  ammo_boxes : Z;
  grenades : Z
}.

(** The weapons [Map] is kept as an association list in insertion order,
    since [GET /api/weapons] lists it with [Array.from(weapons.values())]. *)
Fixpoint wget (k : jsval) (ws : list (string * weapon)) : option weapon :=
  match k with
  | JStr s =>
      match ws with
      | [] => None
      | (k', w) :: ws' => if String.eqb k' s then Some w else wget k ws'
      end
  | _ => None
  end.

Record store := mkStore {
  players : gmap string player;
  weapons : list (string * weapon);
  enemies : gmap string enemy;
  inventory : gmap string inv
}.

Definition initial_weapons : list (string * weapon) :=
  [("pistol", mkWeapon "pistol" "Pistola 9mm" 25 15);
   ("rifle", mkWeapon "rifle" "Rifle de Asalto" 45 30);
   ("shotgun", mkWeapon "shotgun" "Escopeta" 60 8);
   ("sniper", mkWeapon "sniper" "Rifle de Francotirador" 80 5)].

Definition initial_store : store := mkStore ∅ initial_weapons ∅ ∅.

Definition set_players (s : store) (m : gmap string player) : store :=
  mkStore m (weapons s) (enemies s) (inventory s).
Definition set_weapons (s : store) (ws : list (string * weapon)) : store :=
  mkStore (players s) ws (enemies s) (inventory s).
Definition set_enemies (s : store) (m : gmap string enemy) : store :=
  mkStore (players s) (weapons s) m (inventory s).
Definition set_inventory (s : store) (m : gmap string inv) : store :=
  mkStore (players s) (weapons s) (enemies s) m.

(** Domain errors and the 500 of the error handler (a thrown TypeError). *)
Inductive error := NotFound | InvalidInput | Internal.

Inductive result (A : Type) := Ok (a : A) | Err (e : error).
Arguments Ok {A} a.
Arguments Err {A} e.

(* ------------------------------------------------------------------ *)
(** ** The ten handlers *)

(** Template-literal rendering of a body field: [`No ${itemType} ...`]. *)
Definition js_to_string (v : field) : string :=
  match v with
  | None => "undefined"
  | Some JNull => "null"
  | Some (JBool b) => if b then "true" else "false"
  | Some (JNum n) => pretty n
  | Some (JStr s) => s
  | Some JOther => "[object Object]"
  end.

(** ENDPOINT 1: [GET /api/health]: status, message, timestamp, version. *)
Definition health_check (s : store) (now : string) :
    store * (string * string * string * string) :=
  (s, ("ok", "FPS Survival API is running", now, "1.0.0")).

(** ENDPOINT 2: [POST /api/players]; [playerId] is the [uuidv4()] draw. *)
Definition create_player (s : store) (name : field) (playerId now : string) :
    store * player :=
  let newPlayer :=
    {| p_id := playerId;
       p_name := js_or name (String.append "Player_" (String.substring 0 8 playerId));
       p_level := 1;
       p_experience := 0;
       p_health := 100;
       p_armor := 50;
       p_position := (0, 0, 0);
       p_weapons := ["pistol"];
       p_createdAt := now |} in
  let s1 := set_players s (<[playerId := newPlayer]> (players s)) in
  let s2 := set_inventory s1
              (<[playerId := mkInv playerId 3 5 2]> (inventory s1)) in
  (s2, newPlayer).

(** ENDPOINT 3: [GET /api/players/:playerId]; the inventory is
    [inventory.get(playerId)], possibly [undefined]. *)
Definition get_player (s : store) (playerId : string) :
    store * result (player * option inv) :=
  match players s !! playerId with
  | None => (s, Err NotFound)
  | Some p => (s, Ok (p, inventory s !! playerId))
  end.

Record shoot_result := mkShootResult {
  sr_playerId : string;
  sr_weaponId : string;
  sr_weaponName : string;
  sr_damage : Z;
  sr_hit : bool;
  sr_accuracy : dbl;               (* sent as [accuracy.toFixed(2)] *)
  sr_targetEnemyId : field;
  sr_timestamp : string
}.

(** [weapon.ammo = ...] on the object stored under key [k]. *)
Fixpoint wupd (k : jsval) (f : weapon -> weapon) (ws : list (string * weapon)) :
    list (string * weapon) :=
  match k with
  | JStr s =>
      match ws with
      | [] => []
      | (k', w) :: ws' => if String.eqb k' s then (k', f w) :: ws' else (k', w) :: wupd k f ws'
      end
  | _ => ws
  end.

Definition dec_ammo (w : weapon) : weapon :=
  mkWeapon (w_id w) (w_name w) (w_damage w) (Z.max 0 (w_ammo w - 1)).

(** ENDPOINT 4: [POST /api/players/:playerId/shoot]; [accuracy] is the
    [Math.random()] draw (the source multiplies it by 100). *)
Definition shoot (s : store) (playerId : string) (weaponId targetEnemyId : field)
    (rnd : dbl) (now : string) : store * result shoot_result :=
  match players s !! playerId with
  | None => (s, Err NotFound)
  | Some _ =>
      let key := js_or weaponId "pistol" in
      match wget key (weapons s) with
      | None => (s, Err InvalidInput)
      | Some weapon =>
          let accuracy := mul_int rnd 100 in
          let isHit := dgt_int accuracy 30 in
          let res := {| sr_playerId := playerId;
                        sr_weaponId := w_id weapon;
                        sr_weaponName := w_name weapon;
                        sr_damage := w_damage weapon;
                        sr_hit := isHit;
                        sr_accuracy := accuracy;
                        sr_targetEnemyId := targetEnemyId;
                        sr_timestamp := now |} in
          (set_weapons s (wupd key dec_ammo (weapons s)), Ok res)
      end
  end.

Definition enemyTypes : list string := ["Zombie"; "Mutant"; "Infected"; "Raider"].

(** [arr[i]] of a JavaScript array: [undefined] out of range. *)
Definition js_index (l : list string) (i : Z) : option string :=
  if 0 <=? i then nth_error l (Z.to_nat i) else None.

(** ENDPOINT 5: [POST /api/enemies/spawn]; five [Math.random()] draws in
    source order (type, health, x, y, z). *)
Definition spawn_enemy (s : store) (enemyId : string) (r_type r_health r_x r_y r_z : dbl)
    (now : string) : store * (enemy * string) :=
  let randomType := js_index enemyTypes (dfloor (mul_int r_type (Z.of_nat (length enemyTypes)))) in
  let newEnemy := {| e_id := enemyId;
                     e_type := randomType;
                     e_health := dfloor (mul_int r_health 80) + 20;
                     e_position := (mul_int r_x 100, mul_int r_y 100, mul_int r_z 100);
                     e_spawnedAt := now |} in
  let label := match randomType with Some t => t | None => "undefined" end in
  (set_enemies s (<[enemyId := newEnemy]> (enemies s)),
   (newEnemy, String.append label " spawned successfully")).

(** ENDPOINT 6: [GET /api/players/:playerId/inventory]. *)
Definition get_inventory (s : store) (playerId : string) : store * result inv :=
  match inventory s !! playerId with
  | None => (s, Err NotFound)
  | Some i => (s, Ok i)
  end.

Record use_result := mkUseResult {
  u_playerId : string;
  u_itemUsed : field;
  u_success : bool;
  u_message : string;
  u_playerHealth : option Z;
  u_damageCaused : option Z;
  u_ammoRestored : option Z
}.

Definition with_medical_kits (i : inv) (n : Z) : inv :=
  mkInv (i_playerId i) n (ammo_boxes i) (grenades i).
Definition with_grenades (i : inv) (n : Z) : inv :=
  mkInv (i_playerId i) (medical_kits i) (ammo_boxes i) n.
Definition with_ammo_boxes (i : inv) (n : Z) : inv :=
  mkInv (i_playerId i) (medical_kits i) n (grenades i).
Definition with_health (p : player) (h : Z) : player :=
  mkPlayer (p_id p) (p_name p) (p_level p) (p_experience p) h (p_armor p)
    (p_position p) (p_weapons p) (p_createdAt p).

(** ENDPOINT 7: [POST /api/players/:playerId/use-item]; [rnd] is the
    [Math.random()] draw of the grenade branch.  In the medical-kit branch
    [inv.medical_kits--] runs before [player.health] is read: with no
    player under the key the read throws and the error handler answers 500,
    the decrement already done. *)
Definition use_item (s : store) (playerId : string) (itemType : field) (rnd : dbl) :
    store * result use_result :=
  match inventory s !! playerId with
  | None => (s, Err NotFound)
  | Some i =>
      let base := mkUseResult playerId itemType false "" None None None in
      if js_str_eq itemType "medical_kit" && (0 <? medical_kits i) then
        let s1 := set_inventory s
                    (<[playerId := with_medical_kits i (medical_kits i - 1)]> (inventory s)) in
        match players s !! playerId with
        | None => (s1, Err Internal)
        | Some p =>
            let h := Z.min 100 (p_health p + 50) in
            (set_players s1 (<[playerId := with_health p h]> (players s1)),
             Ok (mkUseResult playerId itemType true
                   (String.append "Medical kit used. Health restored to " (pretty h))
                   (Some h) None None))
        end
      else if js_str_eq itemType "grenade" && (0 <? grenades i) then
        (set_inventory s (<[playerId := with_grenades i (grenades i - 1)]> (inventory s)),
         Ok (mkUseResult playerId itemType true "Grenade thrown! Damage radius: 20m"
               None (Some (dfloor (mul_int rnd 100) + 30)) None))
      else if js_str_eq itemType "ammo_box" && (0 <? ammo_boxes i) then
        (set_inventory s (<[playerId := with_ammo_boxes i (ammo_boxes i - 1)]> (inventory s)),
         Ok (mkUseResult playerId itemType true "Ammo resupplied" None None (Some 60)))
      else
        (s, Ok (mkUseResult playerId itemType false
                  (String.append "No " (String.append (js_to_string itemType)
                                          " available in inventory"))
                  None None None))
  end.

Definition level_up_player (p : player) : player :=
  mkPlayer (p_id p) (p_name p) (p_level p + 1) 0 100 50
    (p_position p) (p_weapons p) (p_createdAt p).

(** ENDPOINT 8: [POST /api/players/:playerId/level-up]. *)
Definition level_up (s : store) (playerId : string) : store * result player :=
  match players s !! playerId with
  | None => (s, Err NotFound)
  | Some p =>
      let p' := level_up_player p in
      (set_players s (<[playerId := p']> (players s)), Ok p')
  end.

(** ENDPOINT 9: [GET /api/stats]: the three map sizes and the server
    time ([process.uptime()] and [process.memoryUsage()] are host data). *)
Definition get_stats (s : store) (now : string) : store * (nat * nat * nat * string) :=
  (s, (size (players s), size (enemies s), length (weapons s), now)).

(** ENDPOINT 10: [GET /api/weapons]. *)
Definition list_weapons (s : store) : store * (list weapon * nat) :=
  let ws := map snd (weapons s) in (s, (ws, length ws)).

(** A request with the host values its handler draws. *)
Inductive request :=
| RHealth (now : string)
| RCreatePlayer (name : field) (uuid now : string)
| RGetPlayer (playerId : string)
| RShoot (playerId : string) (weaponId targetEnemyId : field) (rnd : dbl) (now : string)
| RSpawnEnemy (uuid : string) (r1 r2 r3 r4 r5 : dbl) (now : string)
| RGetInventory (playerId : string)
| RUseItem (playerId : string) (itemType : field) (rnd : dbl)
| RLevelUp (playerId : string)
| RStats (now : string)
| RWeapons.

(** The store after a request. *)
Definition step (s : store) (rq : request) : store :=
  match rq with
  | RHealth now => fst (health_check s now)
  | RCreatePlayer nm u now => fst (create_player s nm u now)
  | RGetPlayer pid => fst (get_player s pid)
  | RShoot pid w t r now => fst (shoot s pid w t r now)
  | RSpawnEnemy u r1 r2 r3 r4 r5 now => fst (spawn_enemy s u r1 r2 r3 r4 r5 now)
  | RGetInventory pid => fst (get_inventory s pid)
  | RUseItem pid it r => fst (use_item s pid it r)
  | RLevelUp pid => fst (level_up s pid)
  | RStats now => fst (get_stats s now)
  | RWeapons => fst (list_weapons s)
  end.

Definition run (s : store) (rqs : list request) : store := fold_left step rqs s.

(** States reachable from the startup state. *)
Inductive reachable : store -> Prop :=
| reach_init : reachable initial_store
| reach_step s rq : reachable s -> reachable (step s rq).

(** Successive shots of one weapon identifier [w]: each element is a
    shooter, a target and the two host values of the request. *)
Fixpoint run_shots (s : store) (w : string)
    (shots : list (string * field * dbl * string)) : store :=
  match shots with
  | [] => s
  | (pid, t, r, now) :: rest => run_shots (fst (shoot s pid (Some (JStr w)) t r now)) w rest
  end.

(** The ammo of weapon [w] after each shot of [shots]. *)
Fixpoint ammo_trace (s : store) (w : string)
    (shots : list (string * field * dbl * string)) : list Z :=
  match shots with
  | [] => []
  | (pid, t, r, now) :: rest =>
      let s' := fst (shoot s pid (Some (JStr w)) t r now) in
      match wget (JStr w) (weapons s') with
      | Some wp => w_ammo wp :: ammo_trace s' w rest
      | None => ammo_trace s' w rest
      end
  end.

(** [n] successive medical-kit uses by one player. *)
Fixpoint run_medkits (s : store) (pid : string) (n : nat) : store :=
  match n with
  | O => s
  | S n' => run_medkits (fst (use_item s pid (Some (JStr "medical_kit")) (mkDbl 0 0))) pid n'
  end.

(** [k] successive level-up requests for one player. *)
Fixpoint run_level_ups (s : store) (pid : string) (k : nat) : store :=
  match k with
  | O => s
  | S k' => run_level_ups (fst (level_up s pid)) pid k'
  end.

(* ------------------------------------------------------------------ *)
(** ** The k6 script's [handleSummary] *)




(* ================================================================== *)
(** * Properties *)

Lemma eqb_string_true (a b : string) : String.eqb a b = true <-> a = b.
Proof. apply String.eqb_eq. Qed.

Lemma wget_wupd_same (k : string) f (ws : list (string * weapon)) :
  wget (JStr k) (wupd (JStr k) f ws) = f <$> wget (JStr k) ws.
Proof.
  induction ws as [|[k' w] ws IH]; simpl; [done|].
  destruct (String.eqb k' k) eqn:E; simpl; rewrite ?E; done.
Qed.

Lemma wget_wupd_other (k k' : string) f (ws : list (string * weapon)) :
  k <> k' -> wget (JStr k') (wupd (JStr k) f ws) = wget (JStr k') ws.
Proof.
  intros Hne. induction ws as [|[k0 w] ws IH]; simpl; [done|].
  destruct (String.eqb k0 k) eqn:E; simpl.
  - apply eqb_string_true in E. subst k0.
    destruct (String.eqb k k') eqn:E'; [apply eqb_string_true in E'; congruence|done].
  - destruct (String.eqb k0 k'); [done|exact IH].
Qed.

Lemma map_fst_wupd (k : jsval) f (ws : list (string * weapon)) :
  map fst (wupd k f ws) = map fst ws.
Proof.
  induction ws as [|[k' w] ws IH]; destruct k as [|b|n|x|]; simpl; try done.
  destruct (String.eqb k' x); simpl; congruence.
Qed.

Lemma wget_None_iff (k : string) (ws : list (string * weapon)) :
  wget (JStr k) ws = None <-> ~ In k (map fst ws).
Proof.
  induction ws as [|[k' w] ws IH]; simpl; [tauto|].
  destruct (String.eqb k' k) eqn:E.
  - apply eqb_string_true in E. subst. split; [discriminate|tauto].
  - rewrite IH. split; [|tauto]. intros Hn [Heq|Hin]; [|tauto].
    subst. rewrite String.eqb_refl in E. discriminate.
Qed.

Lemma js_or_falsy (v : field) (d : string) : truthy v = false -> js_or v d = JStr d.
Proof. destruct v; simpl; [intros ->|]; done. Qed.

Lemma js_or_truthy (v : field) (d : string) : truthy v = true -> Some (js_or v d) = v.
Proof. destruct v; simpl; [intros ->|]; done. Qed.

(** The weapon catalog of any reachable state: the four seeded keys, in
    seeding order, each object carrying its own key as [id]. *)
Definition catalog_ok (ws : list (string * weapon)) : Prop :=
  map fst ws = ["pistol"; "rifle"; "shotgun"; "sniper"] /\
  Forall (fun kw => w_id kw.2 = kw.1) ws.

Lemma wupd_catalog_ok (k : jsval) (ws : list (string * weapon)) :
  catalog_ok ws -> catalog_ok (wupd k dec_ammo ws).
Proof.
  intros [Hk Hid]. split; [by rewrite map_fst_wupd|].
  clear Hk. induction Hid as [|[k' w] ws Hw Hid IH];
    destruct k as [|b|n|x|]; simpl; try (constructor; done).
  destruct (String.eqb k' x); constructor; done.
Qed.

Lemma step_weapons s rq :
  weapons (step s rq) = weapons s \/
  exists k, weapons (step s rq) = wupd k dec_ammo (weapons s).
Proof.
  destruct rq; simpl; unfold health_check, create_player, get_player, shoot,
    spawn_enemy, get_inventory, use_item, level_up, get_stats, list_weapons; simpl;
    repeat (case_match; simpl); eauto.
Qed.

Lemma reachable_catalog s : reachable s -> catalog_ok (weapons s).
Proof.
  induction 1 as [|s rq _ IH].
  - split; [done|]. repeat constructor.
  - destruct (step_weapons s rq) as [->|[k ->]]; [done|]. by apply wupd_catalog_ok.
Qed.

Lemma shoot_players s pid w t r now :
  players (fst (shoot s pid w t r now)) = players s.
Proof. unfold shoot. repeat (case_match; simpl); done. Qed.

Lemma js_or_nonempty_str (x d : string) : x <> "" -> js_or (Some (JStr x)) d = JStr x.
Proof.
  intros Hx. simpl. destruct (String.eqb x "") eqn:E; [|done].
  apply eqb_string_true in E. contradiction.
Qed.

(** A server with one player, created with no name. *)
Definition demo_uuid : string := "abcdef12-3456-7890-abcd-ef1234567890".
Definition demo_store : store := fst (create_player initial_store None demo_uuid "t0").

(** C1 (amended): an unknown player is [NotFound]; otherwise the weapon
    identifier is [weaponId || 'pistol'], so every falsy value (absent,
    [null], [false], [0], [""]) resolves to the pistol and any other value is
    looked up as given, an absent key giving [InvalidInput]. In a reachable
    state a falsy identifier shoots the pistol and a non-empty string outside
    the four catalog keys is [InvalidInput]. *)
Theorem shoot_error_cases (s : store) (pid : string) (w t : field) (r : dbl) (now : string) :
  (players s !! pid = None -> shoot s pid w t r now = (s, Err NotFound)) /\
  (is_Some (players s !! pid) -> wget (js_or w "pistol") (weapons s) = None ->
     shoot s pid w t r now = (s, Err InvalidInput)) /\
  js_or None "pistol" = JStr "pistol" /\
  (truthy w = false -> js_or w "pistol" = JStr "pistol") /\
  (truthy w = true -> Some (js_or w "pistol") = w) /\
  (reachable s -> is_Some (players s !! pid) -> truthy w = false ->
     exists res, snd (shoot s pid w t r now) = Ok res /\ sr_weaponId res = "pistol") /\
  (reachable s -> is_Some (players s !! pid) -> forall x, w = Some (JStr x) -> x <> "" ->
     ~ In x ["pistol"; "rifle"; "shotgun"; "sniper"] ->
     snd (shoot s pid w t r now) = Err InvalidInput).
Proof.
  unfold shoot. repeat split.
  - intros ->. done.
  - intros [p ->] ->. done.
  - apply js_or_falsy.
  - apply js_or_truthy.
  - intros Hr [p ->] Hf. rewrite (js_or_falsy _ _ Hf).
    destruct (reachable_catalog s Hr) as [Hk Hid].
    destruct (weapons s) as [|[k0 w0] ws] eqn:Hws; [discriminate|].
    simpl in Hk. injection Hk as -> _. simpl.
    inversion Hid as [|? ? Hw0 _]; subst. simpl in Hw0.
    eexists; split; [reflexivity|]. simpl. exact Hw0.
  - intros Hr [p ->] x -> Hx Hnin. rewrite (js_or_nonempty_str _ _ Hx).
    destruct (reachable_catalog s Hr) as [Hk _].
    assert (Hn : wget (JStr x) (weapons s) = None) by (apply wget_None_iff; by rewrite Hk).
    by rewrite Hn.
Qed.

(** C1 counterexample: the empty string is not a catalog key, yet shooting
    with [weaponId = ""] succeeds with the pistol instead of failing with
    [InvalidInput]. *)
Lemma shoot_empty_weapon_id_fires_pistol :
  is_Some (players demo_store !! demo_uuid) /\
  wget (JStr "") (weapons demo_store) = None /\
  exists res, snd (shoot demo_store demo_uuid (Some (JStr "")) None (mkDbl 0 0) "t1") = Ok res
              /\ sr_weaponId res = "pistol".
Proof.
  split; [vm_compute; eauto|]. split; [reflexivity|].
  eexists; split; [vm_compute; reflexivity|reflexivity].
Qed.

Lemma wget_In (k : string) (ws : list (string * weapon)) (wp : weapon) :
  wget (JStr k) ws = Some wp -> In (k, wp) ws.
Proof.
  induction ws as [|[k' w] ws IH]; simpl; [discriminate|].
  destruct (String.eqb k' k) eqn:E; [|auto].
  apply eqb_string_true in E. intros [= ->]. left. congruence.
Qed.

Lemma wupd_ammo_nonneg (k : jsval) (ws : list (string * weapon)) :
  Forall (fun kw => 0 <= w_ammo kw.2) ws ->
  Forall (fun kw => 0 <= w_ammo kw.2) (wupd k dec_ammo ws).
Proof.
  induction 1 as [|[k' w] ws Hw Hws IH]; destruct k as [|b|n|x|]; simpl;
    try (constructor; done).
  destruct (String.eqb k' x); constructor; simpl; try done. lia.
Qed.

Lemma reachable_ammo_nonneg s :
  reachable s -> Forall (fun kw => 0 <= w_ammo kw.2) (weapons s).
Proof.
  induction 1 as [|s rq _ IH].
  - repeat constructor; simpl; lia.
  - destruct (step_weapons s rq) as [->|[k ->]]; [done|]. by apply wupd_ammo_nonneg.
Qed.

Lemma reachable_wget_ammo s (k : string) (wp : weapon) :
  reachable s -> wget (JStr k) (weapons s) = Some wp -> 0 <= w_ammo wp.
Proof.
  intros Hr Hg. apply wget_In in Hg.
  pose proof (reachable_ammo_nonneg s Hr) as Hf. rewrite List.Forall_forall in Hf.
  exact (Hf _ Hg).
Qed.

Lemma reachable_wget_key s (k : string) (wp : weapon) :
  reachable s -> wget (JStr k) (weapons s) = Some wp -> k <> "".
Proof.
  intros Hr Hg ->. destruct (reachable_catalog s Hr) as [Hk _].
  assert (wget (JStr "") (weapons s) = None) by (apply wget_None_iff; rewrite Hk; simpl; intuition discriminate).
  congruence.
Qed.

Lemma shoot_weapons_hit s pid (w : string) t r now (wp : weapon) :
  w <> "" -> is_Some (players s !! pid) -> wget (JStr w) (weapons s) = Some wp ->
  weapons (fst (shoot s pid (Some (JStr w)) t r now)) = wupd (JStr w) dec_ammo (weapons s).
Proof.
  intros Hw [p Hp] Hg. unfold shoot. rewrite Hp, (js_or_nonempty_str _ _ Hw), Hg. done.
Qed.

Lemma shoot_step s pid w t r now : fst (shoot s pid w t r now) = step s (RShoot pid w t r now).
Proof. reflexivity. Qed.

(** C2: along any sequence of successful shots with one catalog weapon
    identifier, started in a reachable state, the weapon's ammo goes from
    each value [a] to [max 0 (a - 1)]: it never increases and never falls
    below zero. *)
Theorem shots_ammo_monotone (s : store) (w : string) (wp : weapon)
    (shots : list (string * field * dbl * string)) :
  reachable s ->
  wget (JStr w) (weapons s) = Some wp ->
  Forall (fun sh : string * field * dbl * string => is_Some (players s !! sh.1.1.1)) shots ->
  let tr := w_ammo wp :: ammo_trace s w shots in
  length tr = S (length shots) /\
  Forall (fun a => 0 <= a) tr /\
  (forall i a b, tr !! i = Some a -> tr !! S i = Some b -> b = Z.max 0 (a - 1) /\ b <= a).
Proof.
  revert s wp. induction shots as [|[[[pid t] r] now] rest IH]; intros s wp Hr Hg Hok; simpl.
  - split; [done|]. split; [constructor; [eapply reachable_wget_ammo; eauto|constructor]|].
    intros i a b _ Hb. destruct i; discriminate.
  - inversion Hok as [|? ? Hp Hrest]; subst. simpl in Hp.
    set (s' := fst (shoot s pid (Some (JStr w)) t r now)).
    assert (Hw : w <> "") by (eapply reachable_wget_key; eauto).
    assert (Hg' : wget (JStr w) (weapons s') = Some (dec_ammo wp)).
    { unfold s'. rewrite (shoot_weapons_hit s pid w t r now wp Hw Hp Hg).
      by rewrite wget_wupd_same, Hg. }
    assert (Hr' : reachable s') by (unfold s'; rewrite shoot_step; by constructor).
    assert (Hok' : Forall (fun sh : string * field * dbl * string =>
                     is_Some (players s' !! sh.1.1.1)) rest)
      by (unfold s'; by rewrite shoot_players).
    rewrite Hg'.
    destruct (IH s' (dec_ammo wp) Hr' Hg' Hok') as (Hlen & Hnn & Hch).
    pose proof (reachable_wget_ammo s w wp Hr Hg) as H0.
    split; [simpl in *; lia|]. split; [by constructor|].
    intros [|i] a b Ha Hb.
    + simpl in Ha, Hb. injection Ha as <-. injection Hb as <-. simpl. lia.
    + exact (Hch i a b Ha Hb).
Qed.

(** Witness: three pistol shots by the demo player from the demo state. *)
Lemma shots_ammo_monotone_witness :
  let shots := [(demo_uuid, None, mkDbl 0 0, "t1"); (demo_uuid, None, mkDbl 0 0, "t2");
                (demo_uuid, None, mkDbl 0 0, "t3")] in
  reachable demo_store /\
  wget (JStr "pistol") (weapons demo_store) = Some (mkWeapon "pistol" "Pistola 9mm" 25 15) /\
  Forall (fun sh : string * field * dbl * string => is_Some (players demo_store !! sh.1.1.1)) shots /\
  ammo_trace demo_store "pistol" shots = [14; 13; 12] /\
  (let tr := 15 :: ammo_trace demo_store "pistol" shots in
   length tr = S (length shots) /\ Forall (fun a => 0 <= a) tr /\
   (forall i a b, tr !! i = Some a -> tr !! S i = Some b -> b = Z.max 0 (a - 1) /\ b <= a)).
Proof.
  intros shots.
  assert (Hr : reachable demo_store).
  { unfold demo_store. change (reachable (step initial_store (RCreatePlayer None demo_uuid "t0"))).
    constructor. constructor. }
  assert (Hg : wget (JStr "pistol") (weapons demo_store) = Some (mkWeapon "pistol" "Pistola 9mm" 25 15))
    by reflexivity.
  assert (Hok : Forall (fun sh : string * field * dbl * string =>
                  is_Some (players demo_store !! sh.1.1.1)) shots)
    by (repeat constructor; vm_compute; eauto).
  split; [exact Hr|]. split; [exact Hg|]. split; [exact Hok|]. split; [vm_compute; reflexivity|].
  exact (shots_ammo_monotone demo_store "pistol" _ shots Hr Hg Hok).
Defined.

Lemma substring_prefix (n : nat) (id : string) :
  exists rest, String.append (String.substring 0 n id) rest = id.
Proof.
  revert n. induction id as [|c id IH]; intros [|n]; simpl.
  - by exists "".
  - by exists "".
  - by exists (String c id).
  - destruct (IH n) as [rest Hr]. exists rest.
    transitivity (String c (String.append (String.substring 0 n id) rest)); [reflexivity|].
    by rewrite Hr.
Qed.

Lemma substring_length (n : nat) (id : string) :
  (n <= String.length id)%nat -> String.length (String.substring 0 n id) = n.
Proof.
  revert n. induction id as [|c id IH]; intros [|n] Hn; simpl in *; try lia.
  f_equal. apply IH. lia.
Qed.

(** C3: creating a player returns level 1, experience 0, health 100,
    armor 50, origin position, weapons [['pistol']]; in the same step the
    player and the inventory (3 medical kits, 5 ammo boxes, 2 grenades) are
    stored under the generated identifier, nothing else changes; with the
    name omitted or empty, the name is ["Player_"] followed by the first 8
    characters of the identifier (exactly 8 of them for an identifier of at
    least 8 characters, such as a 36-character uuid). *)
Theorem create_player_spec (s : store) (name : field) (id now : string) :
  let '(s', p) := create_player s name id now in
  p_id p = id /\ p_level p = 1 /\ p_experience p = 0 /\ p_health p = 100 /\
  p_armor p = 50 /\ p_position p = (0, 0, 0) /\ p_weapons p = ["pistol"] /\
  p_createdAt p = now /\
  players s' = <[id := p]> (players s) /\
  inventory s' = <[id := mkInv id 3 5 2]> (inventory s) /\
  weapons s' = weapons s /\ enemies s' = enemies s /\
  ((name = None \/ name = Some (JStr "")) ->
     p_name p = JStr (String.append "Player_" (String.substring 0 8 id)) /\
     (exists rest, String.append (String.substring 0 8 id) rest = id) /\
     ((8 <= String.length id)%nat -> String.length (String.substring 0 8 id) = 8%nat)).
Proof.
  simpl. repeat split; try done.
  - by destruct H as [-> | ->].
  - apply substring_prefix.
  - apply substring_length.
Qed.

(** C4: level-up on an unknown identifier is [NotFound] and changes
    nothing; on a known one it stores and returns the player with level
    plus one, experience 0, health 100 and armor 50, whatever the previous
    values, the other fields kept. *)
Theorem level_up_spec (s : store) (pid : string) :
  (players s !! pid = None -> level_up s pid = (s, Err NotFound)) /\
  (forall p, players s !! pid = Some p ->
     let p' := level_up_player p in
     level_up s pid = (set_players s (<[pid := p']> (players s)), Ok p') /\
     p_level p' = p_level p + 1 /\ p_experience p' = 0 /\ p_health p' = 100 /\
     p_armor p' = 50 /\ p_id p' = p_id p /\ p_name p' = p_name p /\
     p_position p' = p_position p /\ p_weapons p' = p_weapons p /\
     p_createdAt p' = p_createdAt p).
Proof.
  unfold level_up. split.
  - intros ->. done.
  - intros p ->. simpl. repeat split.
Qed.

Lemma use_medkit_health (s : store) (pid : string) (r : dbl) (p : player) :
  players s !! pid = Some p ->
  exists p', players (fst (use_item s pid (Some (JStr "medical_kit")) r)) !! pid = Some p' /\
             p_health p' <= Z.max (p_health p) 100.
Proof.
  intros Hp. unfold use_item.
  destruct (inventory s !! pid) as [i|]; [|exists p; split; [done|lia]].
  simpl. destruct (0 <? medical_kits i) eqn:Hk; simpl.
  - rewrite Hp. simpl. rewrite lookup_insert_eq. eexists; split; [reflexivity|]. simpl. lia.
  - exists p. split; [done|lia].
Qed.

Lemma run_medkits_health (n : nat) (s : store) (pid : string) (p : player) :
  players s !! pid = Some p ->
  exists p', players (run_medkits s pid n) !! pid = Some p' /\
             p_health p' <= Z.max (p_health p) 100.
Proof.
  revert s p. induction n as [|n IH]; intros s p Hp; simpl.
  - exists p. split; [done|lia].
  - destruct (use_medkit_health s pid (mkDbl 0 0) p Hp) as (p1 & Hp1 & Hh1).
    destruct (IH _ p1 Hp1) as (p2 & Hp2 & Hh2).
    exists p2. split; [done|lia].
Qed.

(** C5: with a medical kit in stock, using one decrements the count, sets
    the player's health to [min 100 (health + 50)] and reports it; the new
    health is at most 100, whatever it was, and stays at most 100 over any
    number of further medical-kit uses. *)
Theorem use_medkit_spec (s : store) (pid : string) (i : inv) (p : player) (r : dbl) :
  inventory s !! pid = Some i -> 0 < medical_kits i -> players s !! pid = Some p ->
  let h := Z.min 100 (p_health p + 50) in
  let '(s', res) := use_item s pid (Some (JStr "medical_kit")) r in
  inventory s' !! pid = Some (with_medical_kits i (medical_kits i - 1)) /\
  players s' !! pid = Some (with_health p h) /\
  (exists u, res = Ok u /\ u_success u = true /\ u_playerHealth u = Some h) /\
  h <= 100 /\
  (forall n, exists p', players (run_medkits s' pid n) !! pid = Some p' /\ p_health p' <= 100).
Proof.
  intros Hi Hk Hp h. unfold use_item. rewrite Hi. simpl.
  apply Z.ltb_lt in Hk. rewrite Hk, Hp. simpl.
  split; [by rewrite lookup_insert_eq|].
  split; [by rewrite lookup_insert_eq|].
  split; [eexists; repeat split|].
  split; [unfold h; lia|].
  intros n. match goal with
  | |- context [run_medkits ?s' pid n] =>
      destruct (run_medkits_health n s' pid (with_health p h)) as (p' & Hp' & Hh)
  end.
  - simpl. by rewrite lookup_insert_eq.
  - exists p'. split; [done|]. simpl in Hh. unfold h in Hh. lia.
Qed.

Lemma use_medkit_spec_witness :
  (inventory demo_store !! demo_uuid = Some (mkInv demo_uuid 3 5 2) /\
   0 < medical_kits (mkInv demo_uuid 3 5 2) /\
   exists p, players demo_store !! demo_uuid = Some p) /\
  (let '(s', res) := use_item demo_store demo_uuid (Some (JStr "medical_kit")) (mkDbl 0 0) in
   medical_kits <$> (inventory s' !! demo_uuid) = Some 2 /\
   p_health <$> (players s' !! demo_uuid) = Some 100).
Proof.
  assert (Hi : inventory demo_store !! demo_uuid = Some (mkInv demo_uuid 3 5 2)) by reflexivity.
  assert (Hk : 0 < medical_kits (mkInv demo_uuid 3 5 2)) by (simpl; lia).
  destruct (players demo_store !! demo_uuid) as [p|] eqn:Hp; [|discriminate].
  split; [split; [exact Hi|split; [exact Hk|eauto]]|].
  pose proof (use_medkit_spec demo_store demo_uuid _ p (mkDbl 0 0) Hi Hk Hp) as Hs.
  destruct (use_item demo_store demo_uuid (Some (JStr "medical_kit")) (mkDbl 0 0)) as [s' res].
  destruct Hs as (Hi' & Hp' & _). rewrite Hi', Hp'. simpl.
  split; [reflexivity|]. f_equal.
  injection Hp as <-. reflexivity.
Defined.

(** C6: on an existing inventory, a use-item request whose type is none of
    the three recognised ones, or whose matched count is not positive,
    answers [success = false] with the "No ... available" message and
    returns the store unchanged. *)
Theorem use_item_unavailable (s : store) (pid : string) (it : field) (r : dbl) (i : inv) :
  inventory s !! pid = Some i ->
  (js_str_eq it "medical_kit" = true -> medical_kits i <= 0) ->
  (js_str_eq it "grenade" = true -> grenades i <= 0) ->
  (js_str_eq it "ammo_box" = true -> ammo_boxes i <= 0) ->
  exists u, use_item s pid it r = (s, Ok u) /\ u_success u = false /\
    u_message u = String.append "No " (String.append (js_to_string it) " available in inventory").
Proof.
  intros Hi Hm Hg Ha. unfold use_item. rewrite Hi.
  assert (Em : js_str_eq it "medical_kit" && (0 <? medical_kits i) = false).
  { destruct (js_str_eq it "medical_kit"); [|done]. specialize (Hm eq_refl).
    simpl. apply Z.ltb_ge. lia. }
  assert (Eg : js_str_eq it "grenade" && (0 <? grenades i) = false).
  { destruct (js_str_eq it "grenade"); [|done]. specialize (Hg eq_refl).
    simpl. apply Z.ltb_ge. lia. }
  assert (Ea : js_str_eq it "ammo_box" && (0 <? ammo_boxes i) = false).
  { destruct (js_str_eq it "ammo_box"); [|done]. specialize (Ha eq_refl).
    simpl. apply Z.ltb_ge. lia. }
  rewrite Em, Eg, Ea. eexists; repeat split.
Qed.

Lemma use_item_unavailable_witness :
  exists u, use_item demo_store demo_uuid (Some (JStr "bandage")) (mkDbl 0 0) = (demo_store, Ok u) /\
    u_success u = false /\ u_message u = "No bandage available in inventory".
Proof.
  apply (use_item_unavailable demo_store demo_uuid (Some (JStr "bandage")) (mkDbl 0 0)
           (mkInv demo_uuid 3 5 2)); [reflexivity|discriminate|discriminate|discriminate].
Defined.

Lemma use_item_shape (s : store) (pid : string) (it : field) (r : dbl) :
  let s' := fst (use_item s pid it r) in
  weapons s' = weapons s /\ enemies s' = enemies s /\
  (inventory s' = inventory s \/
   exists i i', inventory s !! pid = Some i /\ i_playerId i' = i_playerId i /\
                inventory s' = <[pid := i']> (inventory s)) /\
  (players s' = players s \/
   exists p, players s !! pid = Some p /\
     players s' = <[pid := with_health p (Z.min 100 (p_health p + 50))]> (players s)).
Proof.
  unfold use_item. destruct (inventory s !! pid) as [i|] eqn:Hi; simpl; [|auto].
  repeat case_match; simpl;
    (split; [reflexivity|]); (split; [reflexivity|]);
    (split; [first [left; reflexivity
                   | right; eexists; eexists; split; [reflexivity|split; [|reflexivity]; reflexivity]]|]);
    first [left; reflexivity | right; eexists; split; [reflexivity|reflexivity]].
Qed.

(** Every stored player has an inventory under its key, and every
    inventory record carries its own key. *)
Definition inv_ok (s : store) : Prop :=
  (forall k i, inventory s !! k = Some i -> i_playerId i = k) /\
  (forall k p, players s !! k = Some p -> is_Some (inventory s !! k)).

Lemma step_inv_ok (s : store) (rq : request) : inv_ok s -> inv_ok (step s rq).
Proof.
  intros [H1 H2]. destruct rq as [now|nm u now|pid|pid w t r now|u r1 r2 r3 r4 r5 now
                                 |pid|pid it r|pid|now|]; simpl.
  - split; assumption.
  - split; intros k x Hk; simpl in *; apply lookup_insert_Some in Hk.
    + destruct Hk as [[<- <-]|[_ Hk]]; [done|eauto].
    + apply lookup_insert_is_Some. destruct Hk as [[<- _]|[Hne Hk]]; [by left|right; eauto].
  - unfold get_player. case_match; split; assumption.
  - unfold shoot. repeat case_match; split; assumption.
  - split; assumption.
  - unfold get_inventory. case_match; split; assumption.
  - destruct (use_item_shape s pid it r) as (_ & _ & Hinv & Hpl).
    split.
    + intros k x Hk. destruct Hinv as [Hinv|(i & i' & Hi & Hid & Hinv)]; rewrite Hinv in Hk;
        [eauto|]. apply lookup_insert_Some in Hk.
      destruct Hk as [[<- <-]|[_ Hk]]; [rewrite Hid; eauto|eauto].
    + intros k p Hk.
      assert (Hk' : is_Some (players s !! k)).
      { destruct Hpl as [Hpl|(p0 & Hp0 & Hpl)]; rewrite Hpl in Hk; [eauto|].
        apply lookup_insert_Some in Hk. destruct Hk as [[<- _]|[_ Hk]]; eauto. }
      destruct Hk' as [p1 Hp1]. destruct (H2 k p1 Hp1) as [i0 Hi0].
      destruct Hinv as [->|(i & i' & Hi & Hid & ->)]; [eauto|].
      apply lookup_insert_is_Some. destruct (decide (pid = k)); [by left|right; eauto].
  - unfold level_up. destruct (players s !! pid) as [p|] eqn:Hp; simpl; [|split; assumption].
    split; [assumption|]. intros k x Hk. simpl in Hk. apply lookup_insert_Some in Hk.
    destruct Hk as [[<- _]|[_ Hk]]; eauto.
  - split; assumption.
  - split; assumption.
Qed.

Lemma reachable_inv_ok (s : store) : reachable s -> inv_ok s.
Proof.
  induction 1 as [|s rq _ IH].
  - split; intros k x Hk; simpl in Hk; rewrite lookup_empty in Hk; discriminate.
  - by apply step_inv_ok.
Qed.

(** C7: in every reachable state each stored player has exactly one
    inventory record, stored under the player's identifier and carrying it,
    so [GET /api/players/:playerId] always returns the player together with
    a defined inventory. *)
Theorem reachable_player_has_inventory (s : store) (pid : string) (p : player) :
  reachable s -> players s !! pid = Some p ->
  exists i, inventory s !! pid = Some i /\ i_playerId i = pid /\
            get_player s pid = (s, Ok (p, Some i)).
Proof.
  intros Hr Hp. destruct (reachable_inv_ok s Hr) as [H1 H2].
  destruct (H2 pid p Hp) as [i Hi]. exists i. split; [done|]. split; [eauto|].
  unfold get_player. by rewrite Hp, Hi.
Qed.

Lemma demo_store_reachable : reachable demo_store.
Proof.
  change (reachable (step initial_store (RCreatePlayer None demo_uuid "t0"))).
  constructor. constructor.
Qed.

Lemma reachable_player_has_inventory_witness :
  exists i, inventory demo_store !! demo_uuid = Some i /\ i_playerId i = demo_uuid /\
    exists p, get_player demo_store demo_uuid = (demo_store, Ok (p, Some i)).
Proof.
  destruct (players demo_store !! demo_uuid) as [p|] eqn:Hp; [|discriminate].
  destruct (reachable_player_has_inventory demo_store demo_uuid p demo_store_reachable Hp)
    as (i & Hi & Hid & Hg).
  exists i. split; [exact Hi|]. split; [exact Hid|]. exists p. exact Hg.
Defined.

Definition full_health (s : store) : Prop :=
  forall k p, players s !! k = Some p -> p_health p = 100 /\ p_armor p = 50.

Lemma with_health_same (p : player) : with_health p (p_health p) = p.
Proof. by destruct p. Qed.

Lemma use_item_players_full (s : store) (pid : string) (it : field) (r : dbl) :
  full_health s -> players (fst (use_item s pid it r)) = players s.
Proof.
  intros Hf. destruct (use_item_shape s pid it r) as (_ & _ & _ & [Hpl|(p & Hp & Hpl)]);
    [exact Hpl|]. rewrite Hpl.
  destruct (Hf pid p Hp) as [Hh _].
  replace (Z.min 100 (p_health p + 50)) with (p_health p) by lia.
  rewrite with_health_same. by apply insert_id.
Qed.

Lemma step_full_health (s : store) (rq : request) : full_health s -> full_health (step s rq).
Proof.
  intros Hf. destruct rq as [now|nm u now|pid|pid w t r now|u r1 r2 r3 r4 r5 now
                             |pid|pid it r|pid|now|]; simpl; try exact Hf.
  - intros k p Hk. simpl in Hk. apply lookup_insert_Some in Hk.
    destruct Hk as [[_ <-]|[_ Hk]]; [done|eauto].
  - unfold get_player. case_match; exact Hf.
  - intros k p Hk. rewrite shoot_players in Hk. eauto.
  - unfold get_inventory. case_match; exact Hf.
  - intros k p Hk. rewrite use_item_players_full in Hk by exact Hf. eauto.
  - unfold level_up. destruct (players s !! pid) as [p|] eqn:Hp; simpl; [|exact Hf].
    intros k x Hk. simpl in Hk. apply lookup_insert_Some in Hk.
    destruct Hk as [[_ <-]|[_ Hk]]; [done|eauto].
Qed.

(** C10: in every reachable state every stored player has health exactly
    100 and armor exactly 50, so a use-item request (in particular a
    medical kit, whose [min 100 (health + 50)] is 100) leaves the player
    store as it was. *)
Theorem reachable_full_health (s : store) :
  reachable s ->
  (forall k p, players s !! k = Some p -> p_health p = 100 /\ p_armor p = 50) /\
  (forall pid it r, players (fst (use_item s pid it r)) = players s).
Proof.
  intros Hr. assert (Hf : full_health s).
  { induction Hr as [|s rq _ IH].
    - intros k p Hk. simpl in Hk. rewrite lookup_empty in Hk. discriminate.
    - by apply step_full_health. }
  split; [exact Hf|]. intros pid it r. by apply use_item_players_full.
Qed.

Lemma reachable_full_health_witness :
  let s := step (step demo_store (RLevelUp demo_uuid))
                (RUseItem demo_uuid (Some (JStr "medical_kit")) (mkDbl 0 0)) in
  reachable s /\
  (forall k p, players s !! k = Some p -> p_health p = 100 /\ p_armor p = 50) /\
  (forall pid it r, players (fst (use_item s pid it r)) = players s).
Proof.
  intros s. assert (Hr : reachable s) by (repeat constructor; exact demo_store_reachable).
  split; [exact Hr|]. exact (reachable_full_health s Hr).
Defined.

(** C8: a successful shot leaves players, enemies and inventories as they
    were; the only change is the ammo of the resolved catalog entry, lowered
    to [max 0 (ammo - 1)], every other key reading as before; the reported
    damage is the weapon's configured damage and is applied nowhere. *)
Theorem shoot_frame (s s' : store) (pid : string) (w t : field) (r : dbl) (now : string)
    (res : shoot_result) :
  shoot s pid w t r now = (s', Ok res) ->
  players s' = players s /\ enemies s' = enemies s /\ inventory s' = inventory s /\
  exists k wp, js_or w "pistol" = JStr k /\ wget (JStr k) (weapons s) = Some wp /\
    wget (JStr k) (weapons s') =
      Some (mkWeapon (w_id wp) (w_name wp) (w_damage wp) (Z.max 0 (w_ammo wp - 1))) /\
    (forall k', k' <> k -> wget (JStr k') (weapons s') = wget (JStr k') (weapons s)) /\
    map fst (weapons s') = map fst (weapons s) /\
    sr_damage res = w_damage wp.
Proof.
  unfold shoot. destruct (players s !! pid) as [p|]; [|discriminate].
  destruct (js_or w "pistol") as [|b|n|k|] eqn:Hk;
    try (destruct (weapons s) as [|[? ?] ?]; simpl; discriminate).
  destruct (wget (JStr k) (weapons s)) as [wp|] eqn:Hg; [|discriminate].
  intros [= <- <-]. simpl. repeat split.
  exists k, wp. split; [done|]. split; [done|].
  split; [by rewrite wget_wupd_same, Hg|].
  split; [intros k' Hne; by apply wget_wupd_other|].
  split; [apply map_fst_wupd|done].
Qed.

Lemma shoot_frame_witness :
  exists s' res, shoot demo_store demo_uuid (Some (JStr "rifle")) None (mkDbl 0 0) "t1" = (s', Ok res) /\
    players s' = players demo_store /\ sr_damage res = 45.
Proof.
  destruct (shoot demo_store demo_uuid (Some (JStr "rifle")) None (mkDbl 0 0) "t1") as [s' rr] eqn:E.
  destruct rr as [res|e]; [|vm_compute in E; discriminate].
  exists s', res. split; [reflexivity|].
  destruct (shoot_frame demo_store s' demo_uuid (Some (JStr "rifle")) None (mkDbl 0 0) "t1" res E)
    as (Hp & _ & _ & k & wp & Hk & Hg & _ & _ & _ & Hd).
  split; [exact Hp|]. rewrite Hd. simpl in Hk. injection Hk as <-.
  vm_compute in Hg. injection Hg as <-. reflexivity.
Defined.

Lemma round_prod_spec (M e : Z) :
  0 <= M ->
  exists sh half,
    dexp (round_prod M e) = e + sh /\ 0 <= sh /\ 0 <= mant (round_prod M e) /\
    mant (round_prod M e) * 2 ^ sh <= M + half /\
    ((sh = 0 /\ half = 0) \/ (1 <= sh /\ 2 * half = 2 ^ sh /\ 2 ^ (sh + 52) <= M)).
Proof.
  intros HM. unfold round_prod.
  destruct (Z.log2 M <=? 52) eqn:Hk.
  - exists 0, 0. simpl. split; [lia|]. split; [lia|]. split; [lia|]. split; [lia|]. left; lia.
  - apply Z.leb_gt in Hk.
    set (sh := Z.log2 M - 52).
    assert (Hsh : 1 <= sh) by (unfold sh; lia).
    assert (HMpos : 0 < M).
    { destruct (Z.eq_dec M 0) as [->|]; [simpl in Hk; lia|lia]. }
    assert (Hlog : 2 ^ (sh + 52) <= M).
    { replace (sh + 52) with (Z.log2 M) by (unfold sh; lia). apply Z.log2_spec. lia. }
    assert (Hp : 0 < 2 ^ sh) by (apply Z.pow_pos_nonneg; lia).
    assert (Hhalf : 2 * Z.shiftl 1 (sh - 1) = 2 ^ sh).
    { rewrite Z.shiftl_mul_pow2 by lia. rewrite Z.mul_1_l.
      replace sh with (Z.succ (sh - 1)) at 2 by lia. rewrite Z.pow_succ_r by lia. lia. }
    rewrite Z.shiftr_div_pow2 by lia.
    rewrite (Z.shiftl_mul_pow2 (M / 2 ^ sh) sh) by lia.
    set (half := Z.shiftl 1 (sh - 1)) in *.
    set (q := M / 2 ^ sh).
    assert (Hdm : M = 2 ^ sh * q + M mod 2 ^ sh) by (apply Z.div_mod; lia).
    assert (Hmod : 0 <= M mod 2 ^ sh < 2 ^ sh) by (apply Z.mod_pos_bound; lia).
    assert (Hq : 0 <= q) by (apply Z.div_pos; lia).
    exists sh, half. simpl. split; [reflexivity|]. split; [lia|].
    match goal with |- context [if ?c then _ else _] => destruct c eqn:Hup end; simpl.
    + assert (Hge : half <= M - q * 2 ^ sh).
      { apply orb_true_iff in Hup. destruct Hup as [Hlt|Heq].
        - apply Z.ltb_lt in Hlt. lia.
        - apply andb_true_iff in Heq. destruct Heq as [Heq _]. apply Z.eqb_eq in Heq. lia. }
      split; [lia|]. split; [nia|]. right. lia.
    + split; [lia|]. split; [nia|]. right. lia.
Qed.

Lemma dlt_int_scaled (q e E n : Z) :
  0 <= E -> 0 <= e + E ->
  dlt_int (mkDbl q e) n = (q * 2 ^ (e + E) <? n * 2 ^ E).
Proof.
  intros HE HeE. unfold dlt_int. simpl.
  assert (HpE : 0 < 2 ^ E) by (apply Z.pow_pos_nonneg; lia).
  destruct (0 <=? e) eqn:He.
  - apply Z.leb_le in He.
    rewrite Z.pow_add_r by lia.
    apply eq_true_iff_eq. rewrite !Z.ltb_lt. split; intros H; nia.
  - apply Z.leb_gt in He.
    replace (2 ^ E) with (2 ^ (- e) * 2 ^ (e + E))
      by (rewrite <- Z.pow_add_r by lia; f_equal; lia).
    assert (Hp : 0 < 2 ^ (e + E)) by (apply Z.pow_pos_nonneg; lia).
    apply eq_true_iff_eq. rewrite !Z.ltb_lt. split; intros H; nia.
Qed.

(** [Math.random() * n] stays below [n] after rounding, for [n > 0]. *)
Lemma mul_int_lt (r : dbl) (n : Z) :
  math_random_ok r -> 0 < n ->
  dlt_int (mul_int r n) n = true /\ 0 <= mant (mul_int r n).
Proof.
  destruct r as [m e]. intros (Hm & He & Hlt) Hn. unfold mul_int. simpl in *.
  destruct (round_prod_spec (m * n) e) as (sh & half & Hd & Hsh & Hq & Hb & Hc); [nia|].
  split; [|exact Hq].
  destruct (round_prod (m * n) e) as [q e'] eqn:Hr. simpl in *. subst e'.
  unfold dlt_int in Hlt. simpl in Hlt.
  destruct (0 <=? e) eqn:He0.
  - apply Z.leb_le in He0. apply Z.ltb_lt in Hlt.
    assert (H1 : 1 <= 2 ^ e) by (apply Z.pow_le_mono_r with (a := 2) in He0; simpl in He0; lia).
    assert (Hm0 : m = 0) by nia. subst m.
    assert (Hsh0 : sh = 0 /\ half = 0).
    { destruct Hc as [Hc|(_ & _ & Hc)]; [exact Hc|].
      assert (0 < 2 ^ (sh + 52)) by (apply Z.pow_pos_nonneg; lia). lia. }
    destruct Hsh0 as [-> ->].
    rewrite (dlt_int_scaled q (e + 0) 0 n) by lia. apply Z.ltb_lt.
    simpl in Hb. rewrite Z.mul_1_r in Hb. simpl.
    assert (0 < 2 ^ (e + 0 + 0)) by (apply Z.pow_pos_nonneg; lia). nia.
  - apply Z.leb_gt in He0. apply Z.ltb_lt in Hlt. rewrite Z.mul_1_l in Hlt.
    rewrite (dlt_int_scaled q (e + sh) (- e) n) by lia.
    replace (e + sh + - e) with sh by lia. apply Z.ltb_lt.
    assert (Hkey : m * n + half < n * 2 ^ (- e)).
    { destruct Hc as [[-> ->]|(Hsh1 & Hh & Hlog)]; [nia|].
      assert (Hp52 : 2 ^ (sh + 52) = half * 2 ^ 53).
      { rewrite Z.pow_add_r by lia. rewrite <- Hh.
        replace (2 ^ 53) with (2 * 2 ^ 52) by reflexivity. lia. }
      assert (Hhalf : half < n).
      { assert (0 < 2 ^ 53) by (apply Z.pow_pos_nonneg; lia). nia. }
      nia. }
    lia.
Qed.

Lemma dfloor_bounds (d : dbl) (n : Z) :
  0 <= mant d -> dlt_int d n = true -> 0 <= dfloor d < n.
Proof.
  destruct d as [q e]. unfold dlt_int, dfloor. simpl. intros Hq Hlt.
  destruct (0 <=? e) eqn:He.
  - apply Z.leb_le in He. apply Z.ltb_lt in Hlt.
    rewrite Z.shiftl_mul_pow2 by lia.
    assert (0 < 2 ^ e) by (apply Z.pow_pos_nonneg; lia). nia.
  - apply Z.leb_gt in He. apply Z.ltb_lt in Hlt.
    rewrite Z.shiftr_div_pow2 by lia.
    assert (Hp : 0 < 2 ^ (- e)) by (apply Z.pow_pos_nonneg; lia).
    split; [apply Z.div_pos; lia|].
    apply Z.div_lt_upper_bound; [exact Hp|]. lia.
Qed.

Lemma enemy_type_index (r : dbl) :
  math_random_ok r ->
  exists t, js_index enemyTypes (dfloor (mul_int r (Z.of_nat (length enemyTypes)))) = Some t /\
            In t enemyTypes.
Proof.
  intros Hr. change (Z.of_nat (length enemyTypes)) with 4.
  destruct (mul_int_lt r 4 Hr ltac:(lia)) as [Hlt Hq].
  pose proof (dfloor_bounds _ 4 Hq Hlt) as Hb.
  unfold js_index. destruct (0 <=? dfloor (mul_int r 4)) eqn:H0; [|apply Z.leb_gt in H0; lia].
  assert (Hc : dfloor (mul_int r 4) = 0 \/ dfloor (mul_int r 4) = 1 \/
               dfloor (mul_int r 4) = 2 \/ dfloor (mul_int r 4) = 3) by lia.
  destruct Hc as [-> | [-> | [-> | ->]]]; simpl; eexists; (split; [reflexivity|]); simpl; tauto.
Qed.

(** C9: for any five values returned by [Math.random()], spawning an enemy
    succeeds and stores an enemy whose type is one of the four labels,
    whose health is an integer in [[20, 99]] and whose three coordinates
    are doubles in [[0, 100)] (a non-negative mantissa, value below 100),
    all computed with binary64 rounding. *)
Theorem spawn_enemy_ranges (s : store) (id : string) (r1 r2 r3 r4 r5 : dbl) (now : string) :
  math_random_ok r1 -> math_random_ok r2 -> math_random_ok r3 ->
  math_random_ok r4 -> math_random_ok r5 ->
  let '(s', (e, _)) := spawn_enemy s id r1 r2 r3 r4 r5 now in
  enemies s' !! id = Some e /\
  (exists t, e_type e = Some t /\ In t ["Zombie"; "Mutant"; "Infected"; "Raider"]) /\
  20 <= e_health e <= 99 /\
  (let '(x, y, z) := e_position e in
   0 <= mant x /\ dlt_int x 100 = true /\
   0 <= mant y /\ dlt_int y 100 = true /\
   0 <= mant z /\ dlt_int z 100 = true).
Proof.
  intros H1 H2 H3 H4 H5. unfold spawn_enemy. simpl.
  split; [by rewrite lookup_insert_eq|].
  split; [exact (enemy_type_index r1 H1)|].
  split.
  - destruct (mul_int_lt r2 80 H2 ltac:(lia)) as [Hlt Hq].
    pose proof (dfloor_bounds _ 80 Hq Hlt). lia.
  - destruct (mul_int_lt r3 100 H3 ltac:(lia)) as [Hx Hx'].
    destruct (mul_int_lt r4 100 H4 ltac:(lia)) as [Hy Hy'].
    destruct (mul_int_lt r5 100 H5 ltac:(lia)) as [Hz Hz'].
    repeat split; assumption.
Qed.

(** The largest double below 1, [1 - 2^-53]. *)
Definition max_random : dbl := mkDbl (2 ^ 53 - 1) (-53).

Lemma max_random_ok : math_random_ok max_random.
Proof.
  unfold math_random_ok. repeat split; vm_compute; first [reflexivity | intros ?; discriminate].
Qed.

Lemma spawn_enemy_ranges_witness :
  math_random_ok max_random /\
  (let '(s', (e, _)) := spawn_enemy demo_store "e1" max_random max_random max_random
                          max_random max_random "t1" in
   e_type e = Some "Raider" /\ e_health e = 99 /\
   (let '(x, y, z) := e_position e in
    0 <= mant x /\ dlt_int x 100 = true /\
    0 <= mant y /\ dlt_int y 100 = true /\
    0 <= mant z /\ dlt_int z 100 = true)).
Proof.
  split; [exact max_random_ok|].
  pose proof (spawn_enemy_ranges demo_store "e1" max_random max_random max_random max_random
                max_random "t1" max_random_ok max_random_ok max_random_ok max_random_ok
                max_random_ok) as Hs.
  destruct (spawn_enemy demo_store "e1" max_random max_random max_random max_random max_random "t1")
    as [s' [e msg]] eqn:E.
  destruct Hs as (_ & _ & _ & Hpos).
  split; [|split; [|exact Hpos]];
    (assert (He : e = fst (snd (spawn_enemy demo_store "e1" max_random max_random max_random
                                   max_random max_random "t1"))) by (rewrite E; reflexivity);
     rewrite He; vm_compute; reflexivity).
Defined.

(* ------------------------------------------------------------------ *)
(** ** Further properties of the handlers *)

Lemma use_item_inventory (s : store) (pid : string) (it : field) (r : dbl) :
  let s' := fst (use_item s pid it r) in
  inventory s' = inventory s \/
  exists i, inventory s !! pid = Some i /\
   ((0 < medical_kits i /\
       inventory s' = <[pid := with_medical_kits i (medical_kits i - 1)]> (inventory s)) \/
    (0 < grenades i /\
       inventory s' = <[pid := with_grenades i (grenades i - 1)]> (inventory s)) \/
    (0 < ammo_boxes i /\
       inventory s' = <[pid := with_ammo_boxes i (ammo_boxes i - 1)]> (inventory s))).
Proof.
  unfold use_item. destruct (inventory s !! pid) as [i|] eqn:Hi; simpl; [|by left].
  repeat case_match; simpl; try (left; reflexivity); right; exists i; split; try reflexivity;
    repeat match goal with
           | H : _ && _ = true |- _ => apply andb_true_iff in H; destruct H
           | H : (_ <? _) = true |- _ => apply Z.ltb_lt in H
           end;
    first [left; split; [assumption|reflexivity]
          | right; left; split; [assumption|reflexivity]
          | right; right; split; [assumption|reflexivity]].
Qed.

(** Fields no handler changes after creation, and the level lower bound. *)
Definition player_shape (s : store) : Prop :=
  forall k p, players s !! k = Some p ->
    p_id p = k /\ 1 <= p_level p /\ p_experience p = 0 /\
    p_position p = (0, 0, 0) /\ p_weapons p = ["pistol"].

Lemma step_player_shape (s : store) (rq : request) :
  player_shape s -> player_shape (step s rq).
Proof.
  intros Hs. destruct rq as [now|nm u now|pid|pid w t r now|u r1 r2 r3 r4 r5 now
                             |pid|pid it r|pid|now|]; simpl; try exact Hs.
  - intros k p Hk. simpl in Hk. apply lookup_insert_Some in Hk.
    destruct Hk as [[<- <-]|[_ Hk]]; [simpl; repeat split; lia|eauto].
  - unfold get_player. case_match; exact Hs.
  - intros k p Hk. rewrite shoot_players in Hk. eauto.
  - unfold get_inventory. case_match; exact Hs.
  - destruct (use_item_shape s pid it r) as (_ & _ & _ & [Hpl|(p0 & Hp0 & Hpl)]);
      intros k p Hk; rewrite Hpl in Hk; [eauto|].
    apply lookup_insert_Some in Hk. destruct Hk as [[<- <-]|[_ Hk]]; [|eauto].
    exact (Hs _ _ Hp0).
  - unfold level_up. destruct (players s !! pid) as [p0|] eqn:Hp; simpl; [|exact Hs].
    intros k x Hk. simpl in Hk. apply lookup_insert_Some in Hk.
    destruct Hk as [[<- <-]|[_ Hk]]; [|eauto].
    destruct (Hs _ _ Hp) as (? & ? & ? & ? & ?). simpl. repeat split; try done; lia.
Qed.

(** Inventory counts stay between zero and their initial values. *)
Definition inv_bounds (s : store) : Prop :=
  forall k i, inventory s !! k = Some i ->
    0 <= medical_kits i <= 3 /\ 0 <= ammo_boxes i <= 5 /\ 0 <= grenades i <= 2.

Lemma step_inv_bounds (s : store) (rq : request) :
  inv_bounds s -> inv_bounds (step s rq).
Proof.
  intros Hs. destruct rq as [now|nm u now|pid|pid w t r now|u r1 r2 r3 r4 r5 now
                             |pid|pid it r|pid|now|]; simpl; try exact Hs.
  - intros k i Hk. simpl in Hk. apply lookup_insert_Some in Hk.
    destruct Hk as [[<- <-]|[_ Hk]]; [simpl; lia|eauto].
  - unfold get_player. case_match; exact Hs.
  - unfold shoot. repeat case_match; exact Hs.
  - unfold get_inventory. case_match; exact Hs.
  - intros k i Hk.
    destruct (use_item_inventory s pid it r) as [Heq|(i0 & Hi0 & Hc)];
      [rewrite Heq in Hk; eauto|].
    pose proof (Hs _ _ Hi0) as Hb.
    destruct Hc as [[Hpos Heq]|[[Hpos Heq]|[Hpos Heq]]]; rewrite Heq in Hk;
      apply lookup_insert_Some in Hk; destruct Hk as [[<- <-]|[_ Hk]];
      try (simpl; lia); eauto.
  - unfold level_up. case_match; exact Hs.
Qed.

(** Players and inventories are stored under the same keys. *)
Definition dom_match (s : store) : Prop :=
  forall k, is_Some (players s !! k) <-> is_Some (inventory s !! k).

Lemma step_dom_match (s : store) (rq : request) :
  dom_match s -> dom_match (step s rq).
Proof.
  intros Hs. destruct rq as [now|nm u now|pid|pid w t r now|u r1 r2 r3 r4 r5 now
                             |pid|pid it r|pid|now|]; simpl; try exact Hs.
  - intros k. simpl. rewrite !lookup_insert_is_Some. specialize (Hs k). tauto.
  - unfold get_player. case_match; exact Hs.
  - intros k. rewrite shoot_players. unfold shoot. repeat case_match; exact (Hs k).
  - unfold get_inventory. case_match; exact Hs.
  - destruct (use_item_shape s pid it r) as (_ & _ & Hinv & Hpl).
    intros k.
    assert (Hpk : is_Some (players (fst (use_item s pid it r)) !! k) <-> is_Some (players s !! k)).
    { destruct Hpl as [->|(p0 & Hp0 & ->)]; [done|].
      rewrite lookup_insert_is_Some. destruct (decide (pid = k)) as [<-|]; [|tauto].
      split; [intros _; eauto|auto]. }
    assert (Hik : is_Some (inventory (fst (use_item s pid it r)) !! k) <-> is_Some (inventory s !! k)).
    { destruct Hinv as [->|(i0 & i' & Hi0 & _ & ->)]; [done|].
      rewrite lookup_insert_is_Some. destruct (decide (pid = k)) as [<-|]; [|tauto].
      split; [intros _; eauto|auto]. }
    rewrite Hpk, Hik. exact (Hs k).
  - unfold level_up. destruct (players s !! pid) as [p0|] eqn:Hp; simpl; [|exact Hs].
    intros k. simpl. rewrite lookup_insert_is_Some.
    destruct (decide (pid = k)) as [<-|]; [|specialize (Hs k); tauto].
    rewrite <- (Hs pid), Hp. split; [intros _; eauto|auto].
Qed.

Lemma reachable_invariants (s : store) :
  reachable s -> player_shape s /\ inv_bounds s /\ dom_match s.
Proof.
  induction 1 as [|s rq _ (H1 & H2 & H3)].
  - split; [|split]; intros k; simpl; rewrite ?lookup_empty;
      [intros ? Hk; discriminate|intros ? Hk; discriminate|split; intros [? Hk]; discriminate].
  - split; [by apply step_player_shape|split; [by apply step_inv_bounds|by apply step_dom_match]].
Qed.

(** In every reachable state each stored player is stored under its own
    id, has level at least 1, experience 0, position at the origin and the
    weapon list [['pistol']]: no handler ever changes these fields except
    the level, which only grows. *)
Theorem reachable_player_fields (s : store) (k : string) (p : player) :
  reachable s -> players s !! k = Some p ->
  p_id p = k /\ 1 <= p_level p /\ p_experience p = 0 /\
  p_position p = (0, 0, 0) /\ p_weapons p = ["pistol"].
Proof. intros Hr Hk. destruct (reachable_invariants s Hr) as (H & _ & _). eauto. Qed.

Lemma reachable_player_fields_witness :
  let s := step (step demo_store (RLevelUp demo_uuid))
                (RUseItem demo_uuid (Some (JStr "medical_kit")) (mkDbl 0 0)) in
  exists p, players s !! demo_uuid = Some p /\ p_level p = 2 /\
    p_id p = demo_uuid /\ 1 <= p_level p /\ p_experience p = 0 /\
    p_position p = (0, 0, 0) /\ p_weapons p = ["pistol"].
Proof.
  intros s. assert (Hr : reachable s) by (repeat constructor; exact demo_store_reachable).
  destruct (players s !! demo_uuid) as [p|] eqn:Hp; [|vm_compute in Hp; discriminate].
  exists p. split; [reflexivity|]. split; [vm_compute in Hp; injection Hp as <-; reflexivity|].
  exact (reachable_player_fields s demo_uuid p Hr Hp).
Defined.

(** In every reachable state every inventory holds between 0 and 3
    medical kits, 0 and 5 ammo boxes and 0 and 2 grenades: counts are only
    decremented, and only when positive. *)
Theorem reachable_inventory_bounds (s : store) (k : string) (i : inv) :
  reachable s -> inventory s !! k = Some i ->
  0 <= medical_kits i <= 3 /\ 0 <= ammo_boxes i <= 5 /\ 0 <= grenades i <= 2.
Proof. intros Hr Hk. destruct (reachable_invariants s Hr) as (_ & H & _). eauto. Qed.

Lemma reachable_inventory_bounds_witness :
  let s := run demo_store [RUseItem demo_uuid (Some (JStr "grenade")) (mkDbl 0 0);
                           RUseItem demo_uuid (Some (JStr "grenade")) (mkDbl 0 0);
                           RUseItem demo_uuid (Some (JStr "grenade")) (mkDbl 0 0)] in
  inventory s !! demo_uuid = Some (mkInv demo_uuid 3 5 0) /\
  0 <= 3 <= 3 /\ 0 <= 5 <= 5 /\ 0 <= 0 <= 2.
Proof.
  intros s. assert (Hr : reachable s) by (repeat constructor; exact demo_store_reachable).
  assert (Hi : inventory s !! demo_uuid = Some (mkInv demo_uuid 3 5 0)) by reflexivity.
  split; [exact Hi|]. exact (reachable_inventory_bounds s demo_uuid _ Hr Hi).
Defined.

(** In every reachable state the player map and the inventory map have the
    same keys, so [GET /api/players/:id/inventory] and use-item answer 404
    exactly for the identifiers [GET /api/players/:id] does not know, and
    use-item never reaches the 500 of a missing player. *)
Theorem reachable_same_keys (s : store) (pid : string) (it : field) (r : dbl) :
  reachable s ->
  (is_Some (players s !! pid) <-> is_Some (inventory s !! pid)) /\
  (snd (get_inventory s pid) = Err NotFound <-> players s !! pid = None) /\
  (snd (use_item s pid it r) = Err NotFound <-> players s !! pid = None) /\
  snd (use_item s pid it r) <> Err Internal.
Proof.
  intros Hr. destruct (reachable_invariants s Hr) as (_ & _ & Hd).
  specialize (Hd pid).
  assert (Hn : players s !! pid = None <-> inventory s !! pid = None).
  { rewrite !eq_None_not_Some. tauto. }
  split; [exact Hd|]. rewrite Hn.
  unfold get_inventory, use_item.
  destruct (inventory s !! pid) as [i|] eqn:Hi; [|simpl; repeat split; congruence].
  destruct (players s !! pid) as [p|] eqn:Hp; [|exfalso; pose proof (proj1 Hn eq_refl); congruence].
  simpl. repeat case_match; simpl; repeat split; congruence.
Qed.

Lemma reachable_same_keys_witness :
  snd (use_item demo_store "nobody" (Some (JStr "grenade")) (mkDbl 0 0)) = Err NotFound /\
  players demo_store !! "nobody" = None.
Proof.
  destruct (reachable_same_keys demo_store "nobody" (Some (JStr "grenade")) (mkDbl 0 0)
              demo_store_reachable) as (_ & _ & Hu & _).
  assert (Hp : players demo_store !! "nobody" = None) by reflexivity.
  split; [by apply Hu|exact Hp].
Defined.

(** Each catalog entry keeps its key, id, name and damage, and its ammo
    lies between 0 and the ammo it was seeded with. *)
Definition entry_within (kw0 kw : string * weapon) : Prop :=
  kw.1 = kw0.1 /\ w_id kw.2 = w_id kw0.2 /\ w_name kw.2 = w_name kw0.2 /\
  w_damage kw.2 = w_damage kw0.2 /\ 0 <= w_ammo kw.2 <= w_ammo kw0.2.

Lemma wupd_within (k : jsval) (ws0 ws : list (string * weapon)) :
  Forall2 entry_within ws0 ws -> Forall2 entry_within ws0 (wupd k dec_ammo ws).
Proof.
  induction 1 as [|[k0 w0] [k1 w1] ws0 ws Hw Hws IH]; destruct k as [|b|n|x|]; simpl;
    try (constructor; done).
  destruct (String.eqb k1 x); constructor; try done.
  destruct Hw as (? & ? & ? & ? & ?). unfold entry_within, dec_ammo in *; simpl in *.
  repeat split; try done; lia.
Qed.

Lemma reachable_catalog_within (s : store) :
  reachable s -> Forall2 entry_within initial_weapons (weapons s).
Proof.
  induction 1 as [|s rq _ IH].
  - repeat constructor; simpl; lia.
  - destruct (step_weapons s rq) as [->|[k ->]]; [done|]. by apply wupd_within.
Qed.

(** In every reachable state [GET /api/weapons] lists exactly four weapons,
    pistol, rifle, shotgun and sniper in that order, with their seeded names
    and damages (25, 45, 60, 80), and ammo between 0 and the seeded ammo
    (15, 30, 8, 5): no handler adds, removes, renames or refills a weapon;
    [GET /api/stats] reports 4 weapons. *)
Theorem reachable_weapon_list (s : store) :
  reachable s ->
  let '(ws, total) := snd (list_weapons s) in
  total = 4%nat /\
  map w_id ws = ["pistol"; "rifle"; "shotgun"; "sniper"] /\
  map w_name ws = ["Pistola 9mm"; "Rifle de Asalto"; "Escopeta"; "Rifle de Francotirador"] /\
  map w_damage ws = [25; 45; 60; 80] /\
  Forall2 (fun w a0 => 0 <= w_ammo w <= a0) ws [15; 30; 8; 5] /\
  (snd (get_stats s "")).1.2 = 4%nat.
Proof.
  intros Hr. pose proof (reachable_catalog_within s Hr) as Hc.
  unfold list_weapons, get_stats. simpl.
  inversion Hc as [|kw0 kw ws0 ws E0 Hc1]; subst.
  inversion Hc1 as [|kw0' kw1 ws0' ws1 E1 Hc2]; subst.
  inversion Hc2 as [|kw0'' kw2 ws0'' ws2 E2 Hc3]; subst.
  inversion Hc3 as [|kw0''' kw3 ws0''' ws3 E3 Hc4]; subst.
  inversion Hc4; subst.
  destruct kw as [? w0], kw1 as [? w1], kw2 as [? w2], kw3 as [? w3].
  unfold entry_within in *; simpl in *.
  destruct E0 as (_ & -> & -> & -> & ?), E1 as (_ & -> & -> & -> & ?),
           E2 as (_ & -> & -> & -> & ?), E3 as (_ & -> & -> & -> & ?).
  repeat split; try reflexivity; repeat constructor; lia.
Qed.

Lemma reachable_weapon_list_witness :
  let s := step demo_store (RShoot demo_uuid (Some (JStr "sniper")) None (mkDbl 0 0) "t1") in
  reachable s /\ map w_ammo (fst (snd (list_weapons s))) = [15; 30; 8; 4] /\
  (let '(ws, total) := snd (list_weapons s) in
   total = 4%nat /\
   map w_id ws = ["pistol"; "rifle"; "shotgun"; "sniper"] /\
   map w_name ws = ["Pistola 9mm"; "Rifle de Asalto"; "Escopeta"; "Rifle de Francotirador"] /\
   map w_damage ws = [25; 45; 60; 80] /\
   Forall2 (fun w a0 => 0 <= w_ammo w <= a0) ws [15; 30; 8; 5] /\
   (snd (get_stats s "")).1.2 = 4%nat).
Proof.
  intros s. assert (Hr : reachable s) by (constructor; exact demo_store_reachable).
  split; [exact Hr|]. split; [vm_compute; reflexivity|].
  exact (reachable_weapon_list s Hr).
Defined.

(** The grenade branch of use-item: with a grenade in stock it removes one
    grenade, leaves the players, weapons and enemies as they were, and
    reports a damage in [[30, 129]] for any [Math.random()] value. *)
Theorem use_grenade_spec (s : store) (pid : string) (i : inv) (r : dbl) :
  inventory s !! pid = Some i -> 0 < grenades i -> math_random_ok r ->
  let '(s', res) := use_item s pid (Some (JStr "grenade")) r in
  inventory s' = <[pid := with_grenades i (grenades i - 1)]> (inventory s) /\
  players s' = players s /\ weapons s' = weapons s /\ enemies s' = enemies s /\
  exists u d, res = Ok u /\ u_success u = true /\ u_damageCaused u = Some d /\ 30 <= d <= 129.
Proof.
  intros Hi Hg Hr. unfold use_item. rewrite Hi. simpl.
  apply Z.ltb_lt in Hg. rewrite Hg. simpl.
  destruct (mul_int_lt r 100 Hr ltac:(lia)) as [Hlt Hq].
  pose proof (dfloor_bounds _ 100 Hq Hlt).
  repeat split. do 2 eexists. split; [reflexivity|]. repeat split; lia.
Qed.

Lemma use_grenade_spec_witness :
  let '(s', res) := use_item demo_store demo_uuid (Some (JStr "grenade")) max_random in
  inventory s' = <[demo_uuid := mkInv demo_uuid 3 5 1]> (inventory demo_store) /\
  players s' = players demo_store /\ weapons s' = weapons demo_store /\
  enemies s' = enemies demo_store /\
  exists u d, res = Ok u /\ u_success u = true /\ u_damageCaused u = Some d /\ 30 <= d <= 129.
Proof.
  exact (use_grenade_spec demo_store demo_uuid (mkInv demo_uuid 3 5 2) max_random
           eq_refl ltac:(simpl; lia) max_random_ok).
Defined.

(** The ammo-box branch of use-item: with a box in stock it removes one
    box and reports 60 rounds restored, but changes no weapon's ammo (nor
    any player or enemy). *)
Theorem use_ammo_box_spec (s : store) (pid : string) (i : inv) (r : dbl) :
  inventory s !! pid = Some i -> 0 < ammo_boxes i ->
  let '(s', res) := use_item s pid (Some (JStr "ammo_box")) r in
  inventory s' = <[pid := with_ammo_boxes i (ammo_boxes i - 1)]> (inventory s) /\
  weapons s' = weapons s /\ players s' = players s /\ enemies s' = enemies s /\
  exists u, res = Ok u /\ u_success u = true /\ u_ammoRestored u = Some 60.
Proof.
  intros Hi Ha. unfold use_item. rewrite Hi. simpl.
  apply Z.ltb_lt in Ha. rewrite Ha. simpl.
  repeat split. eexists. repeat split.
Qed.

Lemma use_ammo_box_spec_witness :
  let '(s', res) := use_item demo_store demo_uuid (Some (JStr "ammo_box")) (mkDbl 0 0) in
  inventory s' = <[demo_uuid := mkInv demo_uuid 3 4 2]> (inventory demo_store) /\
  weapons s' = weapons demo_store /\ players s' = players demo_store /\
  enemies s' = enemies demo_store /\
  exists u, res = Ok u /\ u_success u = true /\ u_ammoRestored u = Some 60.
Proof.
  exact (use_ammo_box_spec demo_store demo_uuid (mkInv demo_uuid 3 5 2) (mkDbl 0 0)
           eq_refl ltac:(simpl; lia)).
Defined.

(** [k] level-ups of a stored player raise its level by exactly [k] and,
    for [k >= 1], leave experience 0, health 100 and armor 50; identity,
    name, position, weapons and creation time are kept, and no inventory,
    weapon or enemy changes. *)
Theorem level_ups_compose (s : store) (pid : string) (p : player) (k : nat) :
  players s !! pid = Some p ->
  let s' := run_level_ups s pid k in
  inventory s' = inventory s /\ weapons s' = weapons s /\ enemies s' = enemies s /\
  exists p', players s' !! pid = Some p' /\
    p_level p' = p_level p + Z.of_nat k /\
    p_id p' = p_id p /\ p_name p' = p_name p /\ p_position p' = p_position p /\
    p_weapons p' = p_weapons p /\ p_createdAt p' = p_createdAt p /\
    ((1 <= k)%nat -> p_experience p' = 0 /\ p_health p' = 100 /\ p_armor p' = 50).
Proof.
  revert s p. induction k as [|k IH]; intros s p Hp; simpl.
  - split; [done|]. split; [done|]. split; [done|].
    exists p. split; [done|]. split; [lia|]. do 5 (split; [done|]). intros H; lia.
  - assert (Hstep : fst (level_up s pid) =
                     set_players s (<[pid:=level_up_player p]> (players s)))
      by (unfold level_up; by rewrite Hp).
    rewrite Hstep.
    destruct (IH (set_players s (<[pid:=level_up_player p]> (players s))) (level_up_player p))
      as (Hi & Hw & He & p' & Hp' & Hl & Hid & Hn & Hpos & Hws & Hc & Hx);
      [simpl; apply lookup_insert_eq|].
    simpl in Hi, Hw, He, Hl, Hid, Hn, Hpos, Hws, Hc.
    split; [exact Hi|]. split; [exact Hw|]. split; [exact He|].
    exists p'. split; [exact Hp'|]. split; [lia|].
    do 5 (split; [assumption|]).
    intros _. destruct k as [|k]; [|apply Hx; lia].
    simpl in Hp'. rewrite lookup_insert_eq in Hp'. injection Hp' as <-.
    repeat split.
Qed.

Lemma level_ups_compose_witness :
  let s' := run_level_ups demo_store demo_uuid 3 in
  inventory s' = inventory demo_store /\ weapons s' = weapons demo_store /\
  enemies s' = enemies demo_store /\
  exists p p', players demo_store !! demo_uuid = Some p /\ players s' !! demo_uuid = Some p' /\
    p_level p' = 4 /\ p_level p' = p_level p + Z.of_nat 3.
Proof.
  destruct (players demo_store !! demo_uuid) as [p|] eqn:Hp; [|discriminate].
  destruct (level_ups_compose demo_store demo_uuid p 3 Hp)
    as (Hi & Hw & He & p' & Hp' & Hl & _).
  split; [exact Hi|]. split; [exact Hw|]. split; [exact He|].
  exists p, p'. split; [reflexivity|]. split; [exact Hp'|]. split; [|exact Hl].
  rewrite Hl. injection Hp as <-. reflexivity.
Defined.

(** In a reachable state, creating a player under an identifier not yet
    used adds exactly one player and one inventory, so [GET /api/stats]
    counts one more player; every other player and inventory reads as
    before. *)
Theorem create_fresh_counts (s : store) (name : field) (id now now' : string) :
  reachable s -> players s !! id = None ->
  let s' := fst (create_player s name id now) in
  size (players s') = S (size (players s)) /\
  size (inventory s') = S (size (inventory s)) /\
  (snd (get_stats s' now')).1.1.1 = S (snd (get_stats s now')).1.1.1 /\
  (forall k, k <> id -> players s' !! k = players s !! k /\ inventory s' !! k = inventory s !! k).
Proof.
  intros Hr Hp. destruct (reachable_invariants s Hr) as (_ & _ & Hd).
  assert (Hi : inventory s !! id = None).
  { apply eq_None_not_Some. rewrite <- (Hd id). by rewrite Hp. }
  simpl. rewrite !map_size_insert_None by assumption.
  split; [done|]. split; [done|]. split; [done|].
  intros k Hk. rewrite !lookup_insert_ne by congruence. done.
Qed.

Lemma create_fresh_counts_witness :
  let s' := fst (create_player demo_store None "fresh" "t1") in
  size (players s') = 2%nat /\
  size (players s') = S (size (players demo_store)) /\
  size (inventory s') = S (size (inventory demo_store)) /\
  (snd (get_stats s' "t2")).1.1.1 = S (snd (get_stats demo_store "t2")).1.1.1 /\
  (forall k, k <> "fresh" -> players s' !! k = players demo_store !! k /\
                             inventory s' !! k = inventory demo_store !! k).
Proof.
  split; [vm_compute; reflexivity|].
  exact (create_fresh_counts demo_store None "fresh" "t1" "t2" demo_store_reachable eq_refl).
Defined.

(** Spawning an enemy under an identifier not yet used adds exactly one
    enemy (one more in [GET /api/stats]), touches no player, inventory or
    weapon, and its message is the enemy's type followed by
    [" spawned successfully"]. *)
Theorem spawn_fresh_counts (s : store) (id : string) (r1 r2 r3 r4 r5 : dbl) (now : string) :
  enemies s !! id = None -> math_random_ok r1 ->
  let '(s', (e, msg)) := spawn_enemy s id r1 r2 r3 r4 r5 now in
  size (enemies s') = S (size (enemies s)) /\
  players s' = players s /\ inventory s' = inventory s /\ weapons s' = weapons s /\
  exists t, e_type e = Some t /\ msg = String.append t " spawned successfully".
Proof.
  intros He H1. destruct (enemy_type_index r1 H1) as (t & Ht & _).
  unfold spawn_enemy. rewrite Ht. simpl.
  rewrite map_size_insert_None by assumption.
  repeat split. by exists t.
Qed.

Lemma spawn_fresh_counts_witness :
  let '(s', (e, msg)) := spawn_enemy demo_store "e1" max_random (mkDbl 0 0) (mkDbl 0 0)
                           (mkDbl 0 0) (mkDbl 0 0) "t1" in
  msg = "Raider spawned successfully" /\
  size (enemies s') = S (size (enemies demo_store)) /\
  players s' = players demo_store /\ inventory s' = inventory demo_store /\
  weapons s' = weapons demo_store /\
  exists t, e_type e = Some t /\ msg = String.append t " spawned successfully".
Proof.
  split; [vm_compute; reflexivity|].
  exact (spawn_fresh_counts demo_store "e1" max_random (mkDbl 0 0) (mkDbl 0 0)
           (mkDbl 0 0) (mkDbl 0 0) "t1" eq_refl max_random_ok).
Defined.





